(** * CursorTrail

    A shallow embedding of [src/components/cursorTrail.tsx]: the position
    tracker (raw and display coordinates), the bounded point history kept
    in React state, the moving-average smoothing and the Catmull-Rom to
    Bézier path generation, together with the event handlers and the
    render function of the component.

    JavaScript numbers are kept abstract behind the [Number] interface, so
    that the program text is written once.  Two instances are provided:
    IEEE-754 binary64 with round-to-nearest-even, which is what the
    program runs on, and exact rationals, the idealised arithmetic. *)

From Stdlib Require Import ZArith QArith Qabs Qpower Lia Lqa.
From Stdlib Require Import Floats.SpecFloat.
From stdpp Require Import base option list strings.

(** ** Numbers *)

(** The arithmetic the component uses on its coordinates: literals and the
    four binary operators.  No law is assumed of them. *)
Class Number (num : Type) : Type := {
  num_lit : Q → num;
  num_add : num → num → num;
  num_sub : num → num → num;
  num_mul : num → num → num;
  num_div : num → num → num
}.

Declare Scope num_scope.
Delimit Scope num_scope with num.
Infix "+" := num_add : num_scope.
Infix "-" := num_sub : num_scope.
Infix "*" := num_mul : num_scope.
Infix "/" := num_div : num_scope.

(** An integer-valued JavaScript number (a loop counter, a literal). *)
Definition num_of_Z {num} `{Number num} (z : Z) : num := num_lit (inject_Z z).

(** IEEE-754 binary64, after the executable specification of the standard
    library: every operation rounds to nearest, ties to even. *)
Module Binary64.

Definition prec : Z := 53.
Definition emax : Z := 1024.

Definition of_Z (z : Z) : spec_float := binary_normalize prec emax z 0 false.

(** The double nearest to the rational [q]; correctly rounded as soon as
    numerator and denominator are below 2^53, which every literal of the
    component is. *)
Definition of_Q (q : Q) : spec_float :=
  SFdiv prec emax (of_Z (Qnum q)) (of_Z (Zpos (Qden q))).

(** The rational value of a finite double, in lowest terms (0 for the
    others). *)
Definition to_Q (f : spec_float) : Q :=
  match f with
  | S754_finite s m e =>
      Qred ((if s then -1 else 1) * inject_Z (Zpos m) * (2 ^ e))%Q
  | _ => 0%Q
  end.

Definition is_nan (f : spec_float) : bool :=
  match f with S754_nan => true | _ => false end.

#[global] Instance number : Number spec_float := {
  num_lit := of_Q;
  num_add := SFadd prec emax;
  num_sub := SFsub prec emax;
  num_mul := SFmul prec emax;
  num_div := SFdiv prec emax
}.

End Binary64.

(** Exact rational arithmetic. *)
Module Exact.

#[global] Instance number : Number Q := {
  num_lit := λ q, q;
  num_add := Qplus;
  num_sub := Qminus;
  num_mul := Qmult;
  num_div := Qdiv
}.

End Exact.

(** ** Loops *)

(** [for (let i = lo; i < lo + n; i++) s = body(i, s)], for a body that
    cannot throw. *)
Fixpoint for_loop {St : Type} (lo n : nat) (body : nat → St → St) (s : St) : St :=
  match n with
  | O => s
  | S n' => for_loop (S lo) n' body (body lo s)
  end.

(** The same loop for a body that may throw ([None]): the first exception
    leaves the loop. *)
Fixpoint for_loop_opt {St : Type} (lo n : nat) (body : nat → St → option St)
    (s : St) : option St :=
  match n with
  | O => Some s
  | S n' => s' ← body lo s; for_loop_opt (S lo) n' body s'
  end.

(** ** The component *)

Section CursorTrail.

Context {num : Type} `{Number num}.

(** [${n}] in a template literal: the string of a number. *)
Variable to_string : num → string.

(** *** Data *)

(** [{ x, y }]: the two refs [rawPos] and [displayPos], and the
    coordinates an input event carries. *)
Record Pos : Type := { pos_x : num; pos_y : num }.

(** [interface Point { x: number; y: number; id: number; }]; the id is an
    integer counter, far below 2^53. *)
Record Point : Type := { pt_x : num; pt_y : num; pt_id : Z }.

(** The state of one mounted component: the three [useState] cells and the
    three [useRef] cells. *)
Record State : Type := {
  points : list Point;
  isDesktop : bool;
  isEnabled : bool;
  rawPos : Pos;
  displayPos : Pos;
  pointId : Z
}.

Definition MAX_POINTS : nat := 80.
Definition SMOOTHING_FACTOR : num := num_lit (3 # 4).
Definition ITERATIONS_PER_FRAME : nat := 4.

Definition initial : State := {|
  points := [];
  isDesktop := true;
  isEnabled := true;
  rawPos := {| pos_x := num_of_Z 0; pos_y := num_of_Z 0 |};
  displayPos := {| pos_x := num_of_Z 0; pos_y := num_of_Z 0 |};
  pointId := 0
|}.

Definition set_points (v : list Point) (s : State) : State :=
  {| points := v; isDesktop := isDesktop s; isEnabled := isEnabled s;
     rawPos := rawPos s; displayPos := displayPos s; pointId := pointId s |}.

Definition set_isDesktop (v : bool) (s : State) : State :=
  {| points := points s; isDesktop := v; isEnabled := isEnabled s;
     rawPos := rawPos s; displayPos := displayPos s; pointId := pointId s |}.

Definition set_isEnabled (v : bool) (s : State) : State :=
  {| points := points s; isDesktop := isDesktop s; isEnabled := v;
     rawPos := rawPos s; displayPos := displayPos s; pointId := pointId s |}.

Definition set_rawPos (v : Pos) (s : State) : State :=
  {| points := points s; isDesktop := isDesktop s; isEnabled := isEnabled s;
     rawPos := v; displayPos := displayPos s; pointId := pointId s |}.

Definition set_displayPos (v : Pos) (s : State) : State :=
  {| points := points s; isDesktop := isDesktop s; isEnabled := isEnabled s;
     rawPos := rawPos s; displayPos := v; pointId := pointId s |}.

Definition set_pointId (v : Z) (s : State) : State :=
  {| points := points s; isDesktop := isDesktop s; isEnabled := isEnabled s;
     rawPos := rawPos s; displayPos := displayPos s; pointId := v |}.

(** *** Input handlers *)

(** [check]: the device classification, from the media query's answer. *)
Definition check (hover : bool) (s : State) : State := set_isDesktop hover s.

(** [onMouse]: a mouse move at [(clientX, clientY)]. *)
Definition onMouse (clientX clientY : num) (s : State) : State :=
  if isDesktop s && isEnabled s
  then set_rawPos {| pos_x := clientX; pos_y := clientY |} s
  else s.

(** [onTouch]: a touch move with the list [touches] of active touch
    points.  Reading a coordinate of [e.touches[0]] throws when the list
    is empty. *)
Definition onTouch (touches : list Pos) (s : State) : option State :=
  t ← touches !! 0%nat;
  Some (set_rawPos {| pos_x := pos_x t; pos_y := pos_y t |} s).

(** The toggle button's [onClick]. *)
Definition onClick (s : State) : State := set_isEnabled (negb (isEnabled s)) s.

(** *** Frame loop *)

(** The exponential chase of one sub-step, for a smoothing factor [f]. *)
Definition chase (f : num) (raw display : Pos) : Pos :=
  let dx := (pos_x raw - pos_x display)%num in
  let dy := (pos_y raw - pos_y display)%num in
  {| pos_x := (pos_x display + dx * f)%num;
     pos_y := (pos_y display + dy * f)%num |}.

(** One iteration of the loop inside the updater: chase, then push the new
    display point in front of [tail], taking the next id. *)
Definition substep (st : State * list Point) : State * list Point :=
  let '(s, tail) := st in
  let s1 := set_displayPos (chase SMOOTHING_FACTOR (rawPos s) (displayPos s)) s in
  let p := {| pt_x := pos_x (displayPos s1); pt_y := pos_y (displayPos s1);
              pt_id := pointId s1 |} in
  (set_pointId (pointId s1 + 1) s1, p :: tail).

(** The function handed to [setPoints]: [ITERATIONS_PER_FRAME] sub-steps
    on the previous history, then one [slice(0, MAX_POINTS)]. *)
Definition updater (s : State) (prev : list Point) : State * list Point :=
  let '(s', tail) :=
    for_loop 0 ITERATIONS_PER_FRAME (λ _ st, substep st) (s, prev) in
  (s', take MAX_POINTS tail).

(** The local [tail] of the updater after [k] of its sub-steps on the
    history of [s]. *)
Definition working_tail (k : nat) (s : State) : list Point :=
  (for_loop 0 k (λ _ st, substep st) (s, points s)).2.

(** [loop]: one animation frame.  The updater is run at once on the
    current history, and its result committed. *)
Definition loop (s : State) : State :=
  if isEnabled s && isDesktop s
  then let '(s', next) := updater s (points s) in set_points next s'
  else s.

(** *** Curve synthesizer *)

(** [smoothPoints(points, windowSize)].  [count] is an integer counter and
    becomes a number where it divides; reading a field of [points[j]]
    throws when [j] is out of range. *)
Definition smoothPoints (points : list Point) (windowSize : Z)
    : option (list Point) :=
  if (length points <? 2)%nat then Some points
  else
    for_loop_opt 0 (length points) (λ i smoothed,
      let start := Z.to_nat (Z.max 0 (Z.of_nat i - windowSize + 1)) in
      '(sumX, sumY, count) ←
        for_loop_opt start (S i - start) (λ j '(sumX, sumY, count),
          p ← points !! j;
          Some ((sumX + pt_x p)%num, (sumY + pt_y p)%num, (count + 1)%Z))
        (num_of_Z 0, num_of_Z 0, 0%Z);
      p ← points !! i;
      Some (smoothed ++
            [ {| pt_x := (sumX / num_of_Z count)%num;
                 pt_y := (sumY / num_of_Z count)%num;
                 pt_id := pt_id p |} ])) [].

(** The default [windowSize = 6]. *)
Definition default_windowSize : Z := 6.

(** One cubic Bézier command of the path: two control points and the end
    point. *)
Record Curve : Type := {
  cp1x : num; cp1y : num; cp2x : num; cp2y : num; end_x : num; end_y : num
}.

(** The command the loop body derives from the neighbourhood
    [p0, p1, p2, p3]. *)
Definition segment (p0 p1 p2 p3 : Point) : Curve :=
  {| cp1x := (pt_x p1 + (pt_x p2 - pt_x p0) / num_of_Z 6)%num;
     cp1y := (pt_y p1 + (pt_y p2 - pt_y p0) / num_of_Z 6)%num;
     cp2x := (pt_x p2 - (pt_x p3 - pt_x p1) / num_of_Z 6)%num;
     cp2y := (pt_y p2 - (pt_y p3 - pt_y p1) / num_of_Z 6)%num;
     end_x := pt_x p2;
     end_y := pt_y p2 |}.

(** [`M ${x} ${y}`] *)
Definition move_string (p : Point) : string :=
  "M " +:+ to_string (pt_x p) +:+ " " +:+ to_string (pt_y p).

(** [` C ${cp1x} ${cp1y}, ${cp2x} ${cp2y}, ${p2.x} ${p2.y}`] *)
Definition curve_string (c : Curve) : string :=
  " C " +:+ to_string (cp1x c) +:+ " " +:+ to_string (cp1y c) +:+ ", "
  +:+ to_string (cp2x c) +:+ " " +:+ to_string (cp2y c) +:+ ", "
  +:+ to_string (end_x c) +:+ " " +:+ to_string (end_y c).

(** [generateSmoothPath(pts)]; [None] is a thrown [TypeError]. *)
Definition generateSmoothPath (pts : list Point) : option string :=
  if (length pts <? 2)%nat then Some ""
  else
    first ← pts !! 0%nat;
    for_loop_opt 0 (length pts - 1) (λ i d,
      p0 ← (if (0 <? i)%nat then pts !! (i - 1)%nat else pts !! i);
      p1 ← pts !! i;
      p2 ← pts !! (i + 1)%nat;
      p3 ← (if (Z.of_nat i <? Z.of_nat (length pts) - 2)%Z
            then pts !! (i + 2)%nat else Some p2);
      Some (d +:+ curve_string (segment p0 p1 p2 p3)))
    (move_string first).

(** *** Render *)

(** What the component returns: [null], or the tree with the [d]
    attribute of the two paths when the trail is mounted and the label of
    the toggle button. *)
Inductive Element : Type :=
  | Null
  | Tree (trail : option string) (label : string).

(** One evaluation of the component body: the value bound to the local
    [path], if the binding was evaluated at all, and the element
    returned. *)
Record Render : Type := { path : option string; element : Element }.

Definition CursorTrail (s : State) : option Render :=
  if negb (isDesktop s) then Some {| path := None; element := Null |}
  else
    smoothed ← smoothPoints (points s) default_windowSize;
    d ← generateSmoothPath smoothed;
    Some {| path := Some d;
            element :=
              Tree (if isEnabled s then Some d else None)
                   (if isEnabled s then "Disable Trail" else "Enable Trail") |}.

(** *** Runs *)

(** What happens to a mounted component: an animation frame, a mouse or
    touch move, a click on the toggle, a resize with the new answer of the
    media query. *)
Inductive Event : Type :=
  | Frame
  | MouseMove (clientX clientY : num)
  | TouchMove (touches : list Pos)
  | Click
  | Resize (hover : bool).

(** A handler that throws leaves the state as it was. *)
Definition handle (e : Event) (s : State) : State :=
  match e with
  | Frame => loop s
  | MouseMove clientX clientY => onMouse clientX clientY s
  | TouchMove touches => default s (onTouch touches s)
  | Click => onClick s
  | Resize hover => check hover s
  end.

Definition run (es : list Event) (s : State) : State :=
  foldl (λ s e, handle e s) s es.

(** The number of pushes an event performs in state [s], and along a run. *)
Definition pushes_in (e : Event) (s : State) : nat :=
  match e with
  | Frame => if isEnabled s && isDesktop s then ITERATIONS_PER_FRAME else 0
  | _ => 0
  end.

Fixpoint totalPushes (es : list Event) (s : State) : nat :=
  match es with
  | [] => 0
  | e :: es' => pushes_in e s + totalPushes es' (handle e s)
  end.

(** The points an event creates in state [s], newest first, and the points
    created along a run, newest first: every point the buffer ever held. *)
Definition created_in (e : Event) (s : State) : list Point :=
  match e with
  | Frame =>
      if isEnabled s && isDesktop s
      then (for_loop 0 ITERATIONS_PER_FRAME (λ _ st, substep st) (s, [])).2
      else []
  | _ => []
  end.

Fixpoint created (es : list Event) (s : State) : list Point :=
  match es with
  | [] => []
  | e :: es' => created es' (handle e s) ++ created_in e s
  end.

(** *** Vocabulary of the specification *)

(** The state [enabled-active]: the effect is enabled and the device is
    pointer-capable. *)
Definition active (s : State) : bool := isEnabled s && isDesktop s.

(** Prepend one snapshot and truncate at once, as the specification words
    the push of one sub-step. *)
Definition pushDisplaySnapshot (st : State * list Point) : State * list Point :=
  let '(s, tail) := substep st in (s, take MAX_POINTS tail).

(** The arithmetic mean of a list of numbers: the sum, taken from the
    left starting at 0, divided by the count. *)
Definition mean (xs : list num) : num :=
  (foldl num_add (num_of_Z 0) xs / num_of_Z (Z.of_nat (length xs)))%num.

(** The input points at indices [max(0, i - windowSize + 1)] through [i]
    inclusive. *)
Definition window (points : list Point) (i : nat) (windowSize : Z)
    : list Point :=
  let start := Z.to_nat (Z.max 0 (Z.of_nat i - windowSize + 1)) in
  take (S i - start) (drop start points).

(** [n] calls of the advance sub-step, the raw target held fixed. *)
Definition advance_n (f : num) (raw : Pos) (n : nat) (display : Pos) : Pos :=
  Nat.iter n (chase f raw) display.

(** The output point the specification asks for at index [i], where the
    input holds [p]: the means over the window, and the id of [p]. *)
Definition smoothed_point (points : list Point) (windowSize : Z) (i : nat)
    (p : Point) : Point :=
  {| pt_x := mean (pt_x <$> window points i windowSize);
     pt_y := mean (pt_y <$> window points i windowSize);
     pt_id := pt_id p |}.

(** The neighbourhood of the consecutive pair [(p1, p2)] at index [i]:
    [p0] is the point before [p1], or [p1] itself at the start of the
    sequence; [p3] is the point after [p2], or [p2] itself at the end. *)
Definition before (pts : list Point) (i : nat) (p1 : Point) : Point :=
  match i with
  | O => p1
  | S k => default p1 (pts !! k)
  end.

Definition after (pts : list Point) (i : nat) (p2 : Point) : Point :=
  default p2 (pts !! (i + 2)%nat).

(** A path description as text: the move, then the curves in order. *)
Definition path_string (first : Point) (segs : list Curve) : string :=
  move_string first +:+ foldr (λ c rest, curve_string c +:+ rest) "" segs.

End CursorTrail.

Arguments Pos : clear implicits.
Arguments Point : clear implicits.
Arguments State : clear implicits.
Arguments Curve : clear implicits.
Arguments Event : clear implicits.

(** *** Distances, in exact arithmetic *)





(** *** Concrete inputs, in binary64 arithmetic *)

(** The position [(x, y)], both integers. *)
Definition at_ (x y : Z) : Pos spec_float :=
  {| pos_x := num_of_Z x; pos_y := num_of_Z y |}.

(** A history point with integer coordinates. *)
Definition point_at (x y id : Z) : Point spec_float :=
  {| pt_x := num_of_Z x; pt_y := num_of_Z y; pt_id := id |}.

(** The text of a number, for the states whose every coordinate is 0. *)
Definition zero_string (_ : spec_float) : string := "0".

(** The freshly mounted component. *)
Definition mounted : State spec_float := initial.

(** *** Vocabulary of the further properties *)

(** The events a component that is not enabled-active ignores: frames
    and mouse moves. *)
Definition ignored_when_inactive {num} (e : Event num) : bool :=
  match e with
  | Frame | MouseMove _ _ => true
  | _ => false
  end.

(** The coordinates a pointer can rest at: the finite doubles, negative
    zero apart. *)
Definition settled (x : spec_float) : bool :=
  match x with
  | S754_finite _ _ _ | S754_zero false => true
  | _ => false
  end.

(** The tangent the curve has at an interior point, between its
    neighbours [a] and [b], on each axis. *)
Definition tangent_x {num} `{Number num} (a b : Point num) : num :=
  ((pt_x b - pt_x a) / num_of_Z 6)%num.

Definition tangent_y {num} `{Number num} (a b : Point num) : num :=
  ((pt_y b - pt_y a) / num_of_Z 6)%num.

(** The coordinates of a history point, as a position. *)
Definition position {num} (p : Point num) : Pos num :=
  {| pos_x := pt_x p; pos_y := pt_y p |}.

(** * Properties *)

(** ** The point history *)

Section History.

Context {num : Type} `{Number num}.

Implicit Types (s : State num) (tail prev : list (Point num)).
Implicit Types (e : Event num) (es : list (Event num)).

(** The sub-steps only ever add in front of the sequence they are given. *)
Lemma substeps_app n : ∀ lo s tail,
  for_loop lo n (λ _ st, substep st) (s, tail) =
  ((for_loop lo n (λ _ st, substep st) (s, [])).1,
   (for_loop lo n (λ _ st, substep st) (s, [])).2 ++ tail).
Proof.
  induction n as [|n IH]; intros lo s tail; [done|].
  cbn [for_loop substep]. rewrite (IH _ _ (_ :: tail)), (IH _ _ [_]).
  cbn [fst snd]. by rewrite <- app_assoc.
Qed.

(** What [n] sub-steps leave behind: [n] new points whose ids count up
    from the counter, the counter advanced by [n], nothing else of the
    state but the display position changed. *)
Lemma substeps_spec n : ∀ lo s,
  let r := for_loop lo n (λ _ st, substep st) (s, []) in
  length r.2 = n ∧
  pointId r.1 = (pointId s + Z.of_nat n)%Z ∧
  points r.1 = points s ∧ isEnabled r.1 = isEnabled s ∧
  isDesktop r.1 = isDesktop s ∧ rawPos r.1 = rawPos s ∧
  ∀ i p, r.2 !! i = Some p →
    pt_id p = (pointId s + Z.of_nat n - 1 - Z.of_nat i)%Z.
Proof.
  induction n as [|n IH]; intros lo s; cbn zeta.
  { cbn. repeat split; try done. lia. }
  cbn [for_loop substep]. rewrite substeps_app. cbn [fst snd].
  destruct (IH (S lo)
    (set_pointId (pointId (set_displayPos
       (chase SMOOTHING_FACTOR (rawPos s) (displayPos s)) s) + 1)
       (set_displayPos (chase SMOOTHING_FACTOR (rawPos s) (displayPos s)) s)))
    as (Hlen & Hid & Hpts & Hen & Hdesk & Hraw & Hids).
  cbn [pointId set_pointId set_displayPos points isEnabled isDesktop rawPos]
    in *.
  repeat split; try done.
  - rewrite length_app, Hlen. cbn. lia.
  - lia.
  - intros i p Hi. apply lookup_snoc_Some in Hi as [[Hlt Hi]|[-> <-]].
    + rewrite (Hids _ _ Hi). lia.
    + cbn. lia.
Qed.

Lemma loop_active s : active s = true →
  loop s =
  set_points (take MAX_POINTS (created_in Frame s ++ points s))
    (for_loop 0 ITERATIONS_PER_FRAME (λ _ st, substep st) (s, [])).1.
Proof.
  unfold active, loop, updater, created_in. intros ->.
  by rewrite substeps_app.
Qed.

Lemma loop_inactive s : active s = false → loop s = s.
Proof. unfold active, loop. by intros ->. Qed.

(** The display position after [n] sub-steps: [n] calls of the chase
    towards the raw position, which stays where it is. *)
Lemma substeps_displayPos n : ∀ lo s tail,
  displayPos (for_loop lo n (λ _ st, substep st) (s, tail)).1 =
  advance_n SMOOTHING_FACTOR (rawPos s) n (displayPos s).
Proof.
  unfold advance_n.
  induction n as [|n IH]; intros lo s tail; [done|].
  cbn [for_loop substep]. rewrite IH, Nat.iter_succ_r. done.
Qed.

Lemma loop_displayPos s : active s = true →
  displayPos (loop s) =
  advance_n SMOOTHING_FACTOR (rawPos s) ITERATIONS_PER_FRAME (displayPos s).
Proof.
  intros Ha. rewrite loop_active by done. cbn [set_points displayPos].
  apply substeps_displayPos.
Qed.

Lemma created_in_length e s : length (created_in e s) = pushes_in e s.
Proof.
  destruct e; try done. cbn. destruct (isEnabled s && isDesktop s); [|done].
  apply (substeps_spec ITERATIONS_PER_FRAME 0 s).
Qed.

Lemma created_length es : ∀ s, length (created es s) = totalPushes es s.
Proof.
  induction es as [|e es IH]; intros s; [done|].
  cbn. rewrite length_app, IH, created_in_length. lia.
Qed.

(** Every event takes the counter forward by the pushes it performs. *)
Lemma handle_pointId e s :
  pointId (handle e s) = (pointId s + Z.of_nat (pushes_in e s))%Z.
Proof.
  destruct e as [|x y|ts| |h]; cbn [handle pushes_in].
  - destruct (active s) eqn:Ha.
    + rewrite loop_active by done. unfold active in Ha. rewrite Ha. cbn [pointId set_points].
      apply (substeps_spec ITERATIONS_PER_FRAME 0 s).
    + rewrite loop_inactive by done. unfold active in Ha. rewrite Ha. lia.
  - unfold onMouse. destruct (_ && _); cbn; lia.
  - unfold onTouch. destruct (ts !! 0); cbn; lia.
  - cbn. lia.
  - cbn. lia.
Qed.

(** The history an event leaves: the points it created in front of the
    previous history, cut at the capacity. *)
Lemma handle_points e s : length (points s) ≤ MAX_POINTS →
  points (handle e s) = take MAX_POINTS (created_in e s ++ points s).
Proof.
  intros Hlen.
  assert (points s = take MAX_POINTS ([] ++ points s)) as Hid
    by (by rewrite take_ge).
  destruct e as [|x y|ts| |h]; cbn [handle].
  - destruct (active s) eqn:Ha.
    + by rewrite loop_active.
    + rewrite loop_inactive by done. unfold created_in, active in *.
      by rewrite Ha.
  - unfold onMouse. by destruct (_ && _).
  - unfold onTouch. by destruct (ts !! 0).
  - done.
  - done.
Qed.

Lemma take_app_take {A} (n : nat) (l1 l2 : list A) :
  take n (l1 ++ take n l2) = take n (l1 ++ l2).
Proof.
  rewrite !take_app, take_take. do 2 f_equal. lia.
Qed.

Lemma run_cons e es s : run (e :: es) s = run es (handle e s).
Proof. done. Qed.

(** The history after a run: the newest [MAX_POINTS] of all the points
    created so far. *)
Lemma run_points es : ∀ s, length (points s) ≤ MAX_POINTS →
  points (run es s) = take MAX_POINTS (created es s ++ points s).
Proof.
  induction es as [|e es IH]; intros s Hlen.
  { cbn. by rewrite take_ge. }
  rewrite run_cons, IH.
  - rewrite handle_points by done. cbn [created].
    by rewrite take_app_take, app_assoc.
  - rewrite handle_points by done. rewrite length_take. lia.
Qed.

Lemma run_pointId es : ∀ s,
  pointId (run es s) = (pointId s + Z.of_nat (totalPushes es s))%Z.
Proof.
  induction es as [|e es IH]; intros s; [cbn; lia|].
  rewrite run_cons, IH, handle_pointId. cbn [totalPushes]. lia.
Qed.

(** The id of the [i]-th newest point ever created is the counter less
    [i + 1]. *)
Lemma created_ids es : ∀ s i p, created es s !! i = Some p →
  pt_id p = (pointId (run es s) - 1 - Z.of_nat i)%Z.
Proof.
  induction es as [|e es IH]; intros s i p Hi; [done|].
  rewrite run_cons. cbn [created] in Hi.
  apply lookup_app_Some in Hi as [Hi|[Hge Hi]]; [by apply IH|].
  rewrite run_pointId, handle_pointId.
  rewrite created_length in Hge, Hi.
  destruct e as [|x y|ts| |h]; try done.
  cbn [created_in pushes_in] in *.
  destruct (isEnabled s && isDesktop s); [|done].
  pose proof (substeps_spec ITERATIONS_PER_FRAME 0 s) as (_ & _ & _ & _ & _ & _ & Hids).
  rewrite (Hids _ _ Hi). lia.
Qed.

(** Cutting after every push, as [pushDisplaySnapshot] does, or once
    after the last push of the frame, as [updater] does, commits the same
    history. *)
Lemma pushDisplaySnapshot_for_loop n : ∀ lo s tail,
  for_loop lo n (λ _ st, pushDisplaySnapshot st) (s, take MAX_POINTS tail) =
  ((for_loop lo n (λ _ st, substep st) (s, tail)).1,
   take MAX_POINTS (for_loop lo n (λ _ st, substep st) (s, tail)).2).
Proof.
  induction n as [|n IH]; intros lo s tail; [done|].
  cbn [for_loop pushDisplaySnapshot substep].
  rewrite <- IH. do 2 f_equal.
  change (?p :: ?l) with ([p] ++ l). apply take_app_take.
Qed.

Lemma updater_pushDisplaySnapshot s prev : length prev ≤ MAX_POINTS →
  updater s prev =
  for_loop 0 ITERATIONS_PER_FRAME (λ _ st, pushDisplaySnapshot st) (s, prev).
Proof.
  intros Hlen. rewrite <- (take_ge prev MAX_POINTS) at 2 by done.
  rewrite pushDisplaySnapshot_for_loop. unfold updater.
  by destruct (for_loop _ _ _ _).
Qed.

(** C1 (amended): along every run of the component, after every event,
    hence after every frame (an enabled-active frame performs
    [ITERATIONS_PER_FRAME] pushes and cuts the sequence once, after the
    last of them), the point history holds at most [MAX_POINTS] = 80
    points, and exactly min(totalPushes, MAX_POINTS) of them. *)
Theorem history_bounded_after_every_frame es :
  let s := run es initial in
  MAX_POINTS = 80 ∧
  length (points s) ≤ MAX_POINTS ∧
  length (points s) = totalPushes es initial `min` MAX_POINTS.
Proof.
  cbn zeta. rewrite run_points by (cbn; lia).
  rewrite app_nil_r, length_take, created_length. split; [done|]. lia.
Qed.

(** C2: in every reachable history the ids strictly decrease from index 0
    (newest) towards the tail (oldest); the ids of the history are free of
    duplicates, and so are the ids of all the points created along the
    run, of which the history is the newest part. *)
Theorem ids_strictly_decreasing es :
  let s := run es initial in
  (∀ i j p q, i < j → points s !! i = Some p → points s !! j = Some q →
     (pt_id q < pt_id p)%Z) ∧
  NoDup (pt_id <$> points s) ∧
  NoDup (pt_id <$> created es initial) ∧
  points s = take MAX_POINTS (created es initial).
Proof.
  cbn zeta.
  assert (points (run es initial) = take MAX_POINTS (created es initial))
    as Hpts by (rewrite run_points by (cbn; lia); by rewrite app_nil_r).
  assert (∀ l : list (Point num),
    (∀ i p, l !! i = Some p →
       pt_id p = (pointId (run es initial) - 1 - Z.of_nat i)%Z) →
    NoDup (pt_id <$> l)) as Hnodup.
  { intros l Hl. apply NoDup_alt. intros i j z.
    rewrite !list_lookup_fmap. intros Hi Hj.
    apply fmap_Some in Hi as (p & Hp & ->), Hj as (q & Hq & Heq).
    rewrite (Hl _ _ Hp), (Hl _ _ Hq) in Heq. lia. }
  assert (∀ i p, points (run es initial) !! i = Some p →
    pt_id p = (pointId (run es initial) - 1 - Z.of_nat i)%Z) as Hids.
  { intros i p. rewrite Hpts. intros [Hi _]%lookup_take_Some.
    by apply created_ids. }
  repeat split.
  - intros i j p q Hlt Hp Hq. rewrite (Hids _ _ Hp), (Hids _ _ Hq). lia.
  - by apply Hnodup.
  - apply Hnodup. intros i p. apply created_ids.
  - done.
Qed.

End History.

(** ** The curve synthesizer *)

Section Synthesizer.

Context {num : Type} `{Number num}.

Variable to_string : num → string.

Implicit Types (pts points : list (Point num)) (p q : Point num).

(** The invariant rule of the throwing loop: a body that keeps [I] and
    does not throw on the indices of the loop gives a loop that returns,
    with [I] at the end. *)
Lemma for_loop_opt_inv {St} (I : nat → St → Prop)
    (body : nat → St → option St) n : ∀ lo st,
  I lo st →
  (∀ i st, lo ≤ i < lo + n → I i st →
     ∃ st', body i st = Some st' ∧ I (S i) st') →
  ∃ st', for_loop_opt lo n body st = Some st' ∧ I (lo + n) st'.
Proof.
  induction n as [|n IH]; intros lo st HI Hstep.
  - exists st. by rewrite Nat.add_0_r.
  - destruct (Hstep lo st) as (st1 & Hb & HI1); [lia|done|].
    cbn [for_loop_opt]. rewrite Hb. cbn.
    destruct (IH (S lo) st1 HI1) as (st' & Hst' & HI').
    { intros i st2 Hi. apply Hstep. lia. }
    exists st'. split; [done|]. by replace (lo + S n) with (S lo + n) by lia.
Qed.

(** The inner loop of [smoothPoints]: the sums, from the left, over the
    [cnt] points from index [start] on, and their count. *)
Lemma window_sums points start cnt :
  cnt = 0 ∨ start + cnt ≤ length points →
  for_loop_opt start cnt (λ j '(sumX, sumY, count),
      p ← points !! j;
      Some ((sumX + pt_x p)%num, (sumY + pt_y p)%num, (count + 1)%Z))
    (num_of_Z 0, num_of_Z 0, 0%Z) =
  Some (foldl num_add (num_of_Z 0) (pt_x <$> take cnt (drop start points)),
        foldl num_add (num_of_Z 0) (pt_y <$> take cnt (drop start points)),
        Z.of_nat cnt).
Proof.
  intros Hcnt.
  edestruct (for_loop_opt_inv
    (λ j (st : num * num * Z),
       st = (foldl num_add (num_of_Z 0)
               (pt_x <$> take (j - start) (drop start points)),
             foldl num_add (num_of_Z 0)
               (pt_y <$> take (j - start) (drop start points)),
             Z.of_nat (j - start)))) as (st' & Hst' & HI); last first.
  - rewrite Hst', HI. by replace (start + cnt - start) with cnt by lia.
  - intros j st Hj ->.
    destruct (lookup_lt_is_Some_2 points j) as [p Hp]; [lia|].
    rewrite Hp. cbn. eexists. split; [done|].
    replace (S j - start) with (S (j - start)) by lia.
    rewrite (take_S_r _ _ p).
    + rewrite !fmap_app, !foldl_app. cbn. do 2 f_equal. lia.
    + rewrite lookup_drop. by replace (start + (j - start)) with j by lia.
  - by rewrite Nat.sub_diag.
Qed.

Lemma window_length points i (W : Z) : i < length points →
  length (window points i W) =
  S i - Z.to_nat (Z.max 0 (Z.of_nat i - W + 1)).
Proof.
  intros Hi. unfold window. rewrite length_take, length_drop. lia.
Qed.

(** A window size of 0 or less leaves every window empty. *)
Lemma window_nonpositive points i (W : Z) : (W ≤ 0)%Z → window points i W = [].
Proof.
  intros HW. unfold window.
  by replace (S i - Z.to_nat (Z.max 0 (Z.of_nat i - W + 1))) with 0 by lia.
Qed.

(** [smoothPoints] on two points or more returns, and returns the
    smoothed point of every index. *)
Lemma smoothPoints_imap points (W : Z) : 2 ≤ length points →
  smoothPoints points W = Some (imap (smoothed_point points W) points).
Proof.
  intros Hlen. unfold smoothPoints.
  destruct (Nat.ltb_spec (length points) 2) as [?|_]; [lia|].
  edestruct (for_loop_opt_inv
    (λ i (smoothed : list (Point num)),
       smoothed = imap (smoothed_point points W) (take i points)))
    as (out & Hout & HI); last first.
  - rewrite Hout, HI. cbn. by rewrite take_ge.
  - intros i smoothed Hi ->.
    destruct (lookup_lt_is_Some_2 points i) as [p Hp]; [lia|].
    rewrite window_sums by lia. cbn. rewrite Hp. cbn.
    eexists. split; [done|].
    rewrite (take_S_r _ _ p), imap_app by done. f_equal. cbn.
    rewrite length_take_le, Nat.add_0_r by lia.
    unfold smoothed_point, mean.
    rewrite !length_fmap, window_length by lia. done.
  - done.
Qed.

Lemma append_nil_r (a : string) : a +:+ "" = a.
Proof.
  induction a as [|c a IH]; [done|].
  change (String c (a +:+ "") = String c a). by f_equal.
Qed.

Lemma append_assoc (a b c : string) : (a +:+ b) +:+ c = a +:+ (b +:+ c).
Proof.
  induction a as [|x a IH]; [done|].
  change (String x ((a +:+ b) +:+ c) = String x (a +:+ (b +:+ c))).
  by f_equal.
Qed.

(** Appending the curves one after the other to the text so far gives
    the text so far followed by all the curves. *)
Lemma foldl_append {A} (g : A → string) (l : list A) : ∀ d,
  foldl (λ d c, d +:+ g c) d l = d +:+ foldr (λ c rest, g c +:+ rest) "" l.
Proof.
  induction l as [|c l IH]; intros d; cbn [foldl foldr].
  - by rewrite append_nil_r.
  - by rewrite IH, append_assoc.
Qed.

(** [generateSmoothPath] on two points or more returns: the move to the
    first point, then the curve of every consecutive pair with its
    neighbourhood. *)
Lemma generateSmoothPath_imap pts first : 2 ≤ length pts →
  pts !! 0 = Some first →
  generateSmoothPath to_string pts =
  Some (path_string to_string first
    (imap (λ i p1,
       let p2 := default p1 (pts !! S i) in
       segment (before pts i p1) p1 p2 (after pts i p2))
     (take (length pts - 1) pts))).
Proof.
  intros Hlen Hfirst. unfold generateSmoothPath.
  destruct (Nat.ltb_spec (length pts) 2) as [?|_]; [lia|].
  rewrite Hfirst. cbn [mbind option_bind].
  set (f := λ i p1,
    let p2 := default p1 (pts !! S i) in
    segment (before pts i p1) p1 p2 (after pts i p2)).
  edestruct (for_loop_opt_inv
    (λ i (d : string),
       d = foldl (λ d c, d +:+ curve_string to_string c)
             (move_string to_string first) (imap f (take i pts))))
    as (d & Hd & HI); last first.
  - rewrite Hd, HI. cbn [Nat.add]. by rewrite foldl_append.
  - intros i d Hi ->.
    destruct (lookup_lt_is_Some_2 pts i) as [p1 Hp1]; [lia|].
    destruct (lookup_lt_is_Some_2 pts (i + 1)) as [p2 Hp2]; [lia|].
    assert ((if (0 <? i)%nat then pts !! (i - 1) else pts !! i)
            = Some (before pts i p1)) as ->.
    { destruct i as [|k]; [done|]. cbn [Nat.ltb Nat.leb before].
      replace (S k - 1) with k by lia.
      destruct (lookup_lt_is_Some_2 pts k) as [p0 ->]; [lia|]. done. }
    assert ((if (Z.of_nat i <? Z.of_nat (length pts) - 2)%Z
             then pts !! (i + 2) else Some p2)
            = Some (after pts i p2)) as Hp3.
    { unfold after. destruct (Z.ltb_spec (Z.of_nat i) (Z.of_nat (length pts) - 2)).
      - destruct (lookup_lt_is_Some_2 pts (i + 2)) as [p3 ->]; [lia|]. done.
      - rewrite (lookup_ge_None_2 pts (i + 2)) by lia. done. }
    cbn [mbind option_bind]. rewrite Hp1. cbn [mbind option_bind].
    rewrite Hp2. cbn [mbind option_bind]. rewrite Hp3. cbn [mbind option_bind].
    eexists. split; [done|].
    rewrite (take_S_r _ _ p1), imap_app, foldl_app by done. cbn.
    rewrite length_take_le, Nat.add_0_r by lia. do 2 f_equal.
    unfold f. cbn zeta. replace (S i) with (i + 1) by lia. by rewrite Hp2.
  - done.
Qed.

(** C5: for two input points or more, the path is the move to the first
    point followed by one cubic Bézier command per consecutive pair
    [(p1, p2)], in order; its control points are
    [cp1 = p1 + (p2 - p0) / 6] and [cp2 = p2 - (p3 - p1) / 6], with [p0]
    falling back to [p1] at the start and [p3] to [p2] at the end, and
    its end point is [p2] itself, so that the curve visits every input
    point. *)
Theorem generateSmoothPath_catmull_rom pts : 2 ≤ length pts →
  ∃ first segs,
    pts !! 0 = Some first ∧
    generateSmoothPath to_string pts = Some (path_string to_string first segs) ∧
    length segs = length pts - 1 ∧
    ∀ i p1 p2, pts !! i = Some p1 → pts !! (i + 1) = Some p2 →
      let p0 := before pts i p1 in
      let p3 := after pts i p2 in
      ∃ c, segs !! i = Some c ∧
        cp1x c = (pt_x p1 + (pt_x p2 - pt_x p0) / num_of_Z 6)%num ∧
        cp1y c = (pt_y p1 + (pt_y p2 - pt_y p0) / num_of_Z 6)%num ∧
        cp2x c = (pt_x p2 - (pt_x p3 - pt_x p1) / num_of_Z 6)%num ∧
        cp2y c = (pt_y p2 - (pt_y p3 - pt_y p1) / num_of_Z 6)%num ∧
        end_x c = pt_x p2 ∧ end_y c = pt_y p2.
Proof.
  intros Hlen.
  destruct (lookup_lt_is_Some_2 pts 0) as [first Hfirst]; [lia|].
  eexists first, _. split; [done|]. split.
  { by apply generateSmoothPath_imap. }
  split.
  { rewrite length_imap, length_take. lia. }
  intros i p1 p2 Hp1 Hp2 p0 p3.
  pose proof (lookup_lt_Some _ _ _ Hp2) as Hi.
  eexists. split.
  { rewrite list_lookup_imap, lookup_take_lt, Hp1 by lia. done. }
  cbn zeta. replace (S i) with (i + 1) by lia. rewrite Hp2. done.
Qed.

(** C6: on fewer than two points both stages do nothing: [smoothPoints]
    returns its input as it is, and [generateSmoothPath] the empty
    path description. *)
Theorem short_input_is_noop pts (W : Z) : length pts < 2 →
  smoothPoints pts W = Some pts ∧ generateSmoothPath to_string pts = Some "".
Proof.
  intros Hlen. unfold smoothPoints, generateSmoothPath.
  by destruct (Nat.ltb_spec (length pts) 2) as [_|?]; [|lia].
Qed.

(** Neither stage ever throws. *)
Lemma smoothPoints_total points (W : Z) :
  ∃ out, smoothPoints points W = Some out ∧ length out = length points.
Proof.
  destruct (Nat.lt_ge_cases (length points) 2) as [Hlt|Hge].
  - exists points. split; [|done].
    unfold smoothPoints. by destruct (Nat.ltb_spec (length points) 2); [|lia].
  - eexists. split; [by apply smoothPoints_imap|]. by rewrite length_imap.
Qed.


(** On two points or more [smoothPoints] returns a sequence of the same
    length whose point at index [i] holds the means over the window of
    [i] and the id of the input point at [i]. *)
Lemma smoothPoints_window_means points (W : Z) : 2 ≤ length points →
  ∃ out, smoothPoints points W = Some out ∧ length out = length points ∧
    ∀ i p, points !! i = Some p →
      ∃ q, out !! i = Some q ∧
        pt_x q = mean (pt_x <$> window points i W) ∧
        pt_y q = mean (pt_y <$> window points i W) ∧
        pt_id q = pt_id p.
Proof.
  intros Hlen. eexists. split; [by apply smoothPoints_imap|].
  split; [by rewrite length_imap|].
  intros i p Hp. eexists.
  split; [by rewrite list_lookup_imap, Hp|done].
Qed.

End Synthesizer.

(** ** The driver and the input handlers *)

Section Driver.

Context {num : Type} `{Number num}.

Variable to_string : num → string.

Implicit Types (s : State num) (t : Pos num).


(** C9 (amended): a touch move whose first touch point is [t] overwrites
    the raw position with the coordinates of [t] whatever the enabled
    flag and the device classification, and changes nothing else; a mouse
    move at [(x, y)] overwrites the raw position with [(x, y)] when the
    device is desktop-classified and the effect is enabled. *)
Theorem recordRaw_overwrites (x y : num) t (rest : list (Pos num)) s :
  (∃ s', onTouch (t :: rest) s = Some s' ∧
     rawPos s' = {| pos_x := pos_x t; pos_y := pos_y t |} ∧
     s' = set_rawPos (rawPos s') s) ∧
  (isDesktop s && isEnabled s = true →
     rawPos (onMouse x y s) = {| pos_x := x; pos_y := y |} ∧
     onMouse x y s = set_rawPos (rawPos (onMouse x y s)) s).
Proof.
  split.
  - eexists. by split.
  - unfold onMouse. by intros ->.
Qed.

(** C10: the two handlers differ in their precondition.  A touch move
    overwrites the raw position in every state, also when the effect is
    disabled or the device is not desktop-classified; a mouse move
    overwrites it exactly when the device is desktop-classified and the
    effect is enabled, and otherwise leaves the state as it was. *)
Theorem handlers_differ_in_precondition (x y : num) (rest : list (Pos num)) s :
  onTouch ({| pos_x := x; pos_y := y |} :: rest) s
    = Some (set_rawPos {| pos_x := x; pos_y := y |} s) ∧
  onMouse x y s
    = (if isDesktop s && isEnabled s
       then set_rawPos {| pos_x := x; pos_y := y |} s
       else s) ∧
  (isDesktop s && isEnabled s = false →
     onMouse x y s = s ∧
     rawPos <$> onTouch ({| pos_x := x; pos_y := y |} :: rest) s
       = Some {| pos_x := x; pos_y := y |}).
Proof.
  split; [done|]. split; [done|].
  intros Hguard. unfold onMouse. by rewrite Hguard.
Qed.

End Driver.

(** ** The position tracker, in exact arithmetic *)

Section Tracker.

Implicit Types (f : Q) (raw display : Pos Q).

Local Open Scope Q_scope.






End Tracker.

(** ** Scenarios, in binary64 arithmetic *)

Section Scenarios.

Local Open Scope Z_scope.

(** Closed statements are settled by evaluation. *)
Ltac evaluate :=
  cbn zeta; repeat match goal with |- _ ∧ _ => split end; by vm_compute.

(** The mean of no number at all is 0 / 0: not a number.  This is what
    [smoothPoints] returns in every coordinate for a window size of 0 or
    less, whose windows are empty. *)
Lemma mean_nil_is_nan : Binary64.is_nan (mean []) = true.
Proof. by vm_compute. Qed.

(** Inside a frame the sequence is not cut after every push.  After 20
    frames, so 80 pushes, the history holds 80 points; the first push of
    the next frame, the 81st, makes the working sequence 81 points long,
    above the capacity, while the committed history still holds 80.
    Likewise, after the very first push the working sequence holds one
    point and the committed history is still empty. *)
Lemma working_tail_exceeds_capacity :
  let frames := replicate 20 Frame in
  let s := run frames mounted in
  totalPushes frames mounted = 80%nat ∧
  length (points s) = 80%nat ∧
  length (working_tail 1 s) = 81%nat ∧
  ¬ (length (working_tail 1 s) ≤ MAX_POINTS)%nat ∧
  length (working_tail 1 s) ≠ (81 `min` MAX_POINTS)%nat ∧
  length (points mounted) ≠ (1 `min` MAX_POINTS)%nat ∧
  length (working_tail 1 mounted) = 1%nat.
Proof.
  cbn zeta.
  assert (length (working_tail 1 (run (replicate 20 Frame) mounted)) = 81%nat)
    as -> by (by vm_compute).
  repeat match goal with |- _ ∧ _ => split end; try (by vm_compute).
  unfold MAX_POINTS. lia.
Qed.



(** With the effect disabled a mouse move does not reach the raw
    position: after a click on the toggle, a mouse move at [(5, 7)]
    leaves the state as it was, the raw position at [(0, 0)]. *)
Lemma mouse_move_ignored_when_disabled :
  let s := run [Click] mounted in
  isEnabled s = false ∧
  onMouse (num_of_Z 5) (num_of_Z 7) s = s ∧
  rawPos (onMouse (num_of_Z 5) (num_of_Z 7) s) = at_ 0 0 ∧
  rawPos (onMouse (num_of_Z 5) (num_of_Z 7) s) ≠ at_ 5 7.
Proof. evaluate. Qed.

(** C4: on two points or more and for every window size [W],
    [smoothPoints] returns a sequence of the same length whose point at
    index [i] has for [x] and [y] the arithmetic means of the input
    points at indices [max(0, i - W + 1)] through [i] inclusive and
    carries the id of the input point at [i]; the default window size is
    6.  The mean is taken in the arithmetic of the numbers: the sum in
    index order from 0, divided by the count (0 / 0 for the empty windows
    of a window size below 1).  In particular, in binary64, for [W = 3]
    and the x-values 10, 20, 30 with ids 2, 1, 0, the output x-values are
    10, 15, 20. *)
Theorem smoothPoints_moving_average :
  (∀ num (N : Number num) (points : list (Point num)) (W : Z),
     (2 ≤ length points)%nat →
     ∃ out, smoothPoints points W = Some out ∧
       length out = length points ∧
       ∀ i p, points !! i = Some p →
         ∃ q, out !! i = Some q ∧
           pt_x q = mean (pt_x <$> window points i W) ∧
           pt_y q = mean (pt_y <$> window points i W) ∧
           pt_id q = pt_id p) ∧
  default_windowSize = 6 ∧
  smoothPoints [point_at 10 0 2; point_at 20 0 1; point_at 30 0 0] 3
    = Some [point_at 10 0 2; point_at 15 0 1; point_at 20 0 0].
Proof.
  split; [|split]; [|done|by vm_compute].
  intros num N points W. apply smoothPoints_window_means.
Qed.

(** C7: from the display position (0, 0), with the raw target at
    (100, 0), one frame of the enabled-active component, that is
    [ITERATIONS_PER_FRAME] = 4 sub-steps with [SMOOTHING_FACTOR] = 0.75,
    leaves [display.x] at 100 * (1 - 0.25^4) = 99.609375 and puts exactly
    four new points in front of the history, whose ids count up from the
    counter in the order of creation. *)
Theorem one_frame_scenario (s : State spec_float) :
  active s = true →
  displayPos s = at_ 0 0 →
  rawPos s = at_ 100 0 →
  let s' := loop s in
  ITERATIONS_PER_FRAME = 4%nat ∧
  (Binary64.to_Q SMOOTHING_FACTOR == 3 # 4)%Q ∧
  pos_x (displayPos s') = Binary64.of_Q (99609375 # 1000000) ∧
  (Binary64.to_Q (pos_x (displayPos s')) == 100 * (1 - (1 # 4) ^ 4))%Q ∧
  ∃ p0 p1 p2 p3,
    points s' = take MAX_POINTS ([p3; p2; p1; p0] ++ points s) ∧
    pt_id p0 = pointId s ∧ pt_id p1 = pointId s + 1 ∧
    pt_id p2 = pointId s + 2 ∧ pt_id p3 = pointId s + 3 ∧
    pt_id p0 < pt_id p1 < pt_id p2 ∧ pt_id p2 < pt_id p3 ∧
    pointId s' = pointId s + 4 ∧
    (Binary64.to_Q <$> (pt_x <$> [p0; p1; p2; p3])) =
      [75; 375 # 4; 1575 # 16; 6375 # 64]%Q.
Proof.
  intros Ha Hd Hr s'. subst s'. rewrite loop_active by done.
  unfold created_in. unfold active in Ha. rewrite Ha.
  destruct s as [pts desk en raw disp pid]. cbn in Hd, Hr. subst raw disp.
  unfold ITERATIONS_PER_FRAME.
  cbn [for_loop substep set_displayPos set_pointId set_points rawPos
       displayPos pointId points fst snd].
  split; [done|]. split; [by vm_compute|]. split; [by vm_compute|].
  split; [by vm_compute|].
  eexists _, _, _, _. split; [reflexivity|]. cbn [pt_id].
  repeat (split; [lia|]). by vm_compute.
Qed.

(** *** The theorems at concrete inputs *)

(** After two frames the two newest points carry decreasing ids. *)
Lemma ids_strictly_decreasing_witness :
  let s := run [Frame; Frame] mounted in
  ∃ p q, points s !! 0%nat = Some p ∧ points s !! 1%nat = Some q ∧
    (0 < 1)%nat ∧ pt_id q < pt_id p.
Proof.
  cbn zeta. eexists _, _.
  split; [vm_compute; reflexivity|]. split; [vm_compute; reflexivity|].
  split; [lia|].
  apply (proj1 (ids_strictly_decreasing [Frame; Frame]) 0%nat 1%nat);
    [lia | vm_compute; reflexivity | vm_compute; reflexivity].
Defined.


(** The three points of the averaging example. *)
Lemma smoothPoints_moving_average_witness :
  (2 ≤ length [point_at 10 0 2; point_at 20 0 1; point_at 30 0 0])%nat ∧
  ∃ out,
    smoothPoints [point_at 10 0 2; point_at 20 0 1; point_at 30 0 0] 3
      = Some out ∧
    length out = 3%nat.
Proof.
  split; [cbn; lia|].
  destruct (proj1 smoothPoints_moving_average _ _
              [point_at 10 0 2; point_at 20 0 1; point_at 30 0 0] 3)
    as (out & Hout & Hlen & _); [cbn; lia|].
  exists out. split; [exact Hout|exact Hlen].
Defined.

(** Two points at the origin: one move and one curve. *)
Lemma generateSmoothPath_catmull_rom_witness :
  (2 ≤ length [point_at 0 0 1; point_at 0 0 0])%nat ∧
  ∃ first segs,
    [point_at 0 0 1; point_at 0 0 0] !! 0%nat = Some first ∧
    generateSmoothPath zero_string [point_at 0 0 1; point_at 0 0 0]
      = Some (path_string zero_string first segs) ∧
    length segs = 1%nat.
Proof.
  split; [cbn; lia|].
  destruct (generateSmoothPath_catmull_rom zero_string
              [point_at 0 0 1; point_at 0 0 0])
    as (first & segs & Hfirst & Hpath & Hlen & _); [cbn; lia|].
  exists first, segs. split; [exact Hfirst|]. split; [exact Hpath|exact Hlen].
Defined.

(** A single point: both stages do nothing. *)
Lemma short_input_is_noop_witness :
  (length [point_at 0 0 0] < 2)%nat ∧
  smoothPoints [point_at 0 0 0] 6 = Some [point_at 0 0 0] ∧
  generateSmoothPath zero_string [point_at 0 0 0] = Some "".
Proof.
  split; [cbn; lia|].
  apply (short_input_is_noop zero_string [point_at 0 0 0] 6). cbn. lia.
Defined.

(** The frame after a mouse move to (100, 0) on the mounted component. *)
Lemma one_frame_scenario_witness :
  let s := run [MouseMove (num_of_Z 100) (num_of_Z 0)] mounted in
  active s = true ∧ displayPos s = at_ 0 0 ∧ rawPos s = at_ 100 0 ∧
  pos_x (displayPos (loop s)) = Binary64.of_Q (99609375 # 1000000).
Proof.
  cbn zeta. split; [reflexivity|]. split; [reflexivity|]. split; [reflexivity|].
  apply (one_frame_scenario
           (run [MouseMove (num_of_Z 100) (num_of_Z 0)] mounted));
    reflexivity.
Defined.


(** A mouse move on the mounted component, enabled on a desktop. *)
Lemma recordRaw_overwrites_witness :
  isDesktop mounted && isEnabled mounted = true ∧
  rawPos (onMouse (num_of_Z 5) (num_of_Z 7) mounted) = at_ 5 7.
Proof.
  split; [reflexivity|].
  apply (proj2 (recordRaw_overwrites (num_of_Z 5) (num_of_Z 7)
                  (at_ 0 0) [] mounted)).
  reflexivity.
Defined.

(** A mouse move and a touch move on the disabled component. *)
Lemma handlers_differ_in_precondition_witness :
  let s := run [Click] mounted in
  isDesktop s && isEnabled s = false ∧
  onMouse (num_of_Z 5) (num_of_Z 7) s = s ∧
  rawPos <$> onTouch [at_ 5 7] s = Some (at_ 5 7).
Proof.
  cbn zeta. split; [reflexivity|].
  apply (proj2 (proj2 (handlers_differ_in_precondition
                         (num_of_Z 5) (num_of_Z 7) [] (run [Click] mounted)))).
  reflexivity.
Defined.

End Scenarios.

(** * Further properties *)

(** ** The driver and the history *)

Section DriverFurther.

Context {num : Type} `{Number num}.

Implicit Types (s : State num) (e : Event num) (es : list (Event num)).
Implicit Types (p : Point num).

Lemma run_app es1 es2 s : run (es1 ++ es2) s = run es2 (run es1 s).
Proof. apply foldl_app. Qed.

Lemma substeps_length n lo s tail :
  length (for_loop lo n (λ _ st, substep st) (s, tail)).2 = n + length tail.
Proof.
  rewrite substeps_app. cbn [snd]. rewrite length_app.
  by rewrite (proj1 (substeps_spec n lo s)).
Qed.

(** The point pushed by the sub-step at index [i] from the front is the
    display position after the chases up to it. *)
Lemma substeps_positions n : ∀ lo s i p,
  (for_loop lo n (λ _ st, substep st) (s, [])).2 !! i = Some p →
  position p = advance_n SMOOTHING_FACTOR (rawPos s) (n - i) (displayPos s).
Proof.
  unfold advance_n.
  induction n as [|n IH]; intros lo s i p Hi; [done|].
  cbn [for_loop substep] in Hi. rewrite substeps_app in Hi. cbn [fst snd] in Hi.
  apply lookup_snoc_Some in Hi as [[Hlt Hi]|[-> <-]].
  - rewrite substeps_length in Hlt. cbn [length] in Hlt.
    rewrite (IH _ _ _ _ Hi). cbn [rawPos displayPos set_pointId set_displayPos].
    replace (S n - i) with (S (n - i)) by lia. by rewrite Nat.iter_succ_r.
  - rewrite substeps_length. cbn [length].
    replace (S n - (n + 0)) with 1 by lia. done.
Qed.

(** What an enabled-active frame leaves: the new points in front of the
    newest of the old ones. *)
Lemma loop_points_app s : active s = true →
  points (loop s) =
  created_in Frame s ++
  take (MAX_POINTS - ITERATIONS_PER_FRAME) (points s).
Proof.
  intros Ha. rewrite loop_active by done. cbn [points set_points].
  rewrite take_app_ge; rewrite created_in_length; cbn [pushes_in];
    unfold active in Ha; rewrite Ha; [done|].
  unfold ITERATIONS_PER_FRAME, MAX_POINTS. lia.
Qed.

(** A component that is not enabled-active ignores frames and mouse
    moves. *)
Lemma handle_ignored e s :
  active s = false → ignored_when_inactive e = true → handle e s = s.
Proof.
  intros Ha He. destruct e as [|x y|ts| |h]; try done; cbn [handle].
  - by apply loop_inactive.
  - unfold onMouse. unfold active in Ha. by rewrite andb_comm, Ha.
Qed.

Lemma run_ignored es : ∀ s,
  active s = false → forallb ignored_when_inactive es = true → run es s = s.
Proof.
  induction es as [|e es IH]; intros s Ha Hes; [done|].
  cbn [forallb] in Hes. apply andb_true_iff in Hes as [He Hes].
  rewrite run_cons, handle_ignored by done. by apply IH.
Qed.

(** X1: the writers are separate.  A frame never changes the raw
    position, the enabled flag or the device classification; a mouse
    move, a touch move (also one that throws for want of a touch point), a
    click and a resize never change the display position, the history or
    the id counter. *)
Theorem writers_are_separate e s :
  match e with
  | Frame =>
      rawPos (handle e s) = rawPos s ∧
      isEnabled (handle e s) = isEnabled s ∧
      isDesktop (handle e s) = isDesktop s
  | _ =>
      displayPos (handle e s) = displayPos s ∧
      points (handle e s) = points s ∧
      pointId (handle e s) = pointId s
  end.
Proof.
  destruct e as [|x y|ts| |h]; cbn [handle].
  - destruct (active s) eqn:Ha; [|by rewrite loop_inactive].
    rewrite loop_active by done.
    cbn [set_points rawPos isEnabled isDesktop].
    by destruct (substeps_spec ITERATIONS_PER_FRAME 0 s)
      as (_ & _ & _ & -> & -> & -> & _).
  - unfold onMouse. by destruct (_ && _).
  - unfold onTouch. by destruct (ts !! 0).
  - done.
  - done.
Qed.

(** X2: a component that is not enabled-active is frozen under frames
    and mouse moves: any run of them leaves the whole state as it was. *)
Theorem inactive_component_is_frozen es s :
  active s = false → forallb ignored_when_inactive es = true → run es s = s.
Proof. apply run_ignored. Qed.

(** X3: the toggle keeps the history.  Disabling an enabled component,
    letting any frames and mouse moves pass, and enabling it again gives
    back the very state it was disabled in: the history, the display
    position and the id counter resume from where they were. *)
Theorem toggle_round_trip es s :
  isEnabled s = true → forallb ignored_when_inactive es = true →
  run (Click :: es ++ [Click]) s = s.
Proof.
  intros Hen Hes.
  assert (active (handle Click s) = false) as Ha.
  { unfold active. cbn. by rewrite Hen. }
  rewrite run_cons, run_app, (run_ignored es _ Ha Hes).
  destruct s as [pts desk en raw disp pid]. cbn in *. by subst en.
Qed.

(** X4: the id counter counts the pushes.  Along every run it advances
    by exactly the number of points pushed, and no event, the toggle and
    the device change included, lowers or resets it. *)
Theorem id_counter_counts_pushes es s :
  pointId (run es s) = (pointId s + Z.of_nat (totalPushes es s))%Z ∧
  (pointId s ≤ pointId (run es s))%Z ∧
  (∀ e, pointId s ≤ pointId (handle e s))%Z.
Proof.
  split; [apply run_pointId|]. split.
  - rewrite run_pointId. lia.
  - intros e. rewrite handle_pointId. lia.
Qed.

(** X5: an enabled-active frame slides the history.  It puts
    [ITERATIONS_PER_FRAME] new points in front, keeps behind them the
    [MAX_POINTS - ITERATIONS_PER_FRAME] newest points it found, as they
    were and in their order, and drops the older ones. *)
Theorem frame_slides_history s : active s = true →
  ∃ new, length new = ITERATIONS_PER_FRAME ∧
    points (loop s) =
    new ++ take (MAX_POINTS - ITERATIONS_PER_FRAME) (points s).
Proof.
  intros Ha. exists (created_in Frame s). split; [|by apply loop_points_app].
  rewrite created_in_length. cbn. unfold active in Ha. by rewrite Ha.
Qed.

(** The newest point of the history is the display position, and carries
    the last id given: kept by every event. *)
Lemma newest_point_kept e s :
  (∀ p, points s !! 0 = Some p →
     position p = displayPos s ∧ pt_id p = (pointId s - 1)%Z) →
  ∀ p, points (handle e s) !! 0 = Some p →
    position p = displayPos (handle e s) ∧
    pt_id p = (pointId (handle e s) - 1)%Z.
Proof.
  intros Hinv p.
  assert (∀ s', displayPos s' = displayPos s → points s' = points s →
            pointId s' = pointId s →
            points s' !! 0 = Some p →
            position p = displayPos s' ∧ pt_id p = (pointId s' - 1)%Z)
    as Hsame.
  { intros s' -> -> ->. apply Hinv. }
  destruct e as [|x y|ts| |h]; cbn [handle].
  - destruct (active s) eqn:Ha; [|rewrite loop_inactive by done; apply Hinv].
    rewrite loop_points_app, loop_displayPos by done.
    pose proof (handle_pointId Frame s) as Hid. cbn [handle pushes_in] in Hid.
    rewrite Hid. unfold active in Ha. rewrite Ha.
    rewrite lookup_app_l; last first.
    { rewrite created_in_length. cbn. rewrite Ha.
      unfold ITERATIONS_PER_FRAME. lia. }
    unfold created_in. rewrite Ha. intros Hp. split.
    + by rewrite (substeps_positions _ _ _ _ _ Hp), Nat.sub_0_r.
    + destruct (substeps_spec ITERATIONS_PER_FRAME 0 s)
        as (_ & _ & _ & _ & _ & _ & Hids).
      rewrite (Hids _ _ Hp). lia.
  - apply Hsame; unfold onMouse; by destruct (_ && _).
  - apply Hsame; unfold onTouch; by destruct (ts !! 0).
  - by apply Hsame.
  - by apply Hsame.
Qed.

(** X6: along every run from the mounted state, the newest point of the
    history, when there is one, is the current display position and
    carries the id before the counter. *)
Theorem newest_point_is_display_position es p :
  points (run es initial) !! 0 = Some p →
  position p = displayPos (run es initial) ∧
  pt_id p = (pointId (run es initial) - 1)%Z.
Proof.
  revert p. induction es as [|e es IH] using rev_ind; [done|].
  rewrite run_app. by apply newest_point_kept.
Qed.

(** X7: in an enabled-active frame the new point at index [i] from the
    front is the display position after [ITERATIONS_PER_FRAME - i] chases
    of the position the frame started from, towards the raw position, and
    its id is the counter plus the number of points pushed before it. *)
Theorem frame_points_are_successive_chases s i p :
  active s = true → i < ITERATIONS_PER_FRAME →
  points (loop s) !! i = Some p →
  position p =
    advance_n SMOOTHING_FACTOR (rawPos s) (ITERATIONS_PER_FRAME - i)
      (displayPos s) ∧
  pt_id p = (pointId s + Z.of_nat (ITERATIONS_PER_FRAME - 1 - i))%Z.
Proof.
  intros Ha Hi. rewrite loop_points_app by done.
  assert (length (created_in Frame s) = ITERATIONS_PER_FRAME) as Hlen.
  { rewrite created_in_length. cbn. unfold active in Ha. by rewrite Ha. }
  rewrite lookup_app_l by lia.
  unfold created_in. unfold active in Ha. rewrite Ha. intros Hp. split.
  - by apply (substeps_positions _ 0).
  - destruct (substeps_spec ITERATIONS_PER_FRAME 0 s)
      as (_ & _ & _ & _ & _ & _ & Hids).
    rewrite (Hids _ _ Hp). lia.
Qed.

End DriverFurther.

(** ** The curve synthesizer and the render *)

Section SynthesizerFurther.

Context {num : Type} `{Number num}.

Variable to_string : num → string.

Implicit Types (pts points : list (Point num)) (p q a b : Point num).
Implicit Types (s : State num).

(** A window size above the index takes the window back to the newest
    point. *)
Lemma window_clipped points i (W : Z) :
  (Z.of_nat i < W)%Z → window points i W = take (S i) points.
Proof.
  intros HW. unfold window.
  replace (Z.to_nat (Z.max 0 (Z.of_nat i - W + 1))) with 0 by lia.
  by rewrite Nat.sub_0_r.
Qed.

(** A path through two points or more is not the empty text. *)
Lemma path_string_nonempty (first : Point num) (segs : list (Curve num)) :
  path_string to_string first segs ≠ "".
Proof. unfold path_string, move_string. intros Heq. discriminate Heq. Qed.

(** X8: at every interior point of the sequence the curve keeps its
    tangent.  For three consecutive input points [a], [p], [b], the
    command that arrives at [p] ends at [p] with its second control point
    at [p - t], and the command that leaves [p] has its first control
    point at [p + t], for the same [t = (b - a) / 6] on each axis. *)
Theorem tangents_agree_at_joins pts i a p b :
  pts !! i = Some a → pts !! (i + 1) = Some p → pts !! (i + 2) = Some b →
  ∃ first segs c_in c_out,
    pts !! 0 = Some first ∧
    generateSmoothPath to_string pts = Some (path_string to_string first segs) ∧
    segs !! i = Some c_in ∧ segs !! (i + 1) = Some c_out ∧
    end_x c_in = pt_x p ∧ end_y c_in = pt_y p ∧
    cp2x c_in = (pt_x p - tangent_x a b)%num ∧
    cp2y c_in = (pt_y p - tangent_y a b)%num ∧
    cp1x c_out = (pt_x p + tangent_x a b)%num ∧
    cp1y c_out = (pt_y p + tangent_y a b)%num.
Proof.
  intros Ha Hp Hb. pose proof (lookup_lt_Some _ _ _ Hb) as Hlen.
  destruct (lookup_lt_is_Some_2 pts 0) as [first Hfirst]; [lia|].
  eexists first, _, _, _. split; [done|].
  split; [by apply generateSmoothPath_imap; [lia|]|].
  split; [by rewrite list_lookup_imap, lookup_take_lt, Ha by lia|].
  split; [by rewrite list_lookup_imap, lookup_take_lt, Hp by lia|].
  cbn zeta. unfold after, before, tangent_x, tangent_y.
  replace (S i) with (i + 1) by lia. rewrite Hp. cbn [default from_option].
  rewrite Hb. cbn [default from_option].
  replace (i + 1) with (S i) by lia.
  replace (S (S i)) with (i + 2) by lia. rewrite Hb, Ha. done.
Qed.

(** X9: [smoothPoints] never throws and never reorders: for every input
    and every window size, also 0 or negative, it returns as many points
    as it was given, with the same ids in the same order. *)
Theorem smoothPoints_keeps_ids points (W : Z) :
  ∃ out, smoothPoints points W = Some out ∧
    length out = length points ∧ pt_id <$> out = pt_id <$> points.
Proof.
  destruct (Nat.lt_ge_cases (length points) 2) as [Hlt|Hge].
  - exists points. unfold smoothPoints.
    by destruct (Nat.ltb_spec (length points) 2); [|lia].
  - eexists. split; [by apply smoothPoints_imap|].
    split; [by rewrite length_imap|].
    rewrite fmap_imap. by rewrite <- (imap_const pt_id points).
Qed.

(** X10: a window size that reaches the length of the input turns the
    moving average into a running mean: the output at index [i] is the
    mean of all the points from the newest up to index [i]. *)
Theorem smoothPoints_running_mean points (W : Z) :
  2 ≤ length points → (Z.of_nat (length points) ≤ W)%Z →
  ∃ out, smoothPoints points W = Some out ∧
    ∀ i p, points !! i = Some p →
      ∃ q, out !! i = Some q ∧
        pt_x q = mean (pt_x <$> take (S i) points) ∧
        pt_y q = mean (pt_y <$> take (S i) points).
Proof.
  intros Hlen HW. eexists. split; [by apply smoothPoints_imap|].
  intros i p Hp. pose proof (lookup_lt_Some _ _ _ Hp) as Hi.
  eexists. split; [by rewrite list_lookup_imap, Hp|].
  cbn [smoothed_point pt_x pt_y]. by rewrite window_clipped by lia.
Qed.

(** X11: a render never throws.  On a device that is not
    pointer-capable it returns [null]; otherwise it returns the tree with
    the toggle labelled after the enabled flag and the trail mounted
    exactly when the effect is enabled, and the path it computed is the
    empty text exactly when the history holds fewer than two points. *)
Theorem render_never_throws s :
  ∃ r, CursorTrail to_string s = Some r ∧
    (isDesktop s = false → r = {| path := None; element := Null |}) ∧
    (isDesktop s = true →
       ∃ d, r = {| path := Some d;
                   element :=
                     Tree (if isEnabled s then Some d else None)
                          (if isEnabled s then "Disable Trail"
                           else "Enable Trail") |} ∧
            (d = "" ↔ length (points s) < 2)).
Proof.
  unfold CursorTrail. destruct (isDesktop s); cbn [negb]; [|by eexists].
  destruct (smoothPoints_total (points s) default_windowSize)
    as (smoothed & Hsmoothed & Hlen).
  rewrite Hsmoothed. cbn [mbind option_bind].
  destruct (Nat.lt_ge_cases (length smoothed) 2) as [Hlt|Hge].
  - assert (generateSmoothPath to_string smoothed = Some "") as ->.
    { unfold generateSmoothPath.
      by destruct (Nat.ltb_spec (length smoothed) 2); [|lia]. }
    eexists. split; [done|]. split; [done|]. intros _. eexists.
    split; [done|]. split; [lia|done].
  - destruct (lookup_lt_is_Some_2 smoothed 0) as [first Hfirst]; [lia|].
    rewrite (generateSmoothPath_imap to_string smoothed first) by done.
    eexists. split; [done|]. split; [done|]. intros _. eexists.
    split; [done|]. split; [|lia].
    intros Heq. by apply path_string_nonempty in Heq.
Qed.

End SynthesizerFurther.

(** ** The pipeline in exact arithmetic *)

Section ExactFurther.

Implicit Types (s : State Q) (xs : list Q).

Local Open Scope Q_scope.





End ExactFurther.

(** ** The tracker in binary64 arithmetic *)

Section Binary64Further.

Implicit Types (s : State spec_float) (x y : spec_float).

(** A settled coordinate less itself is zero, and zero added to it
    leaves it as it is; zero times the smoothing factor is zero. *)
Lemma settled_sub_diag x :
  settled x = true → (x - x)%num = S754_zero false.
Proof.
  destruct x as [[]| | |sx mx ex]; try done. intros _.
  cbn [num_sub Binary64.number]. unfold SFsub. by rewrite Z.sub_diag.
Qed.

Lemma settled_add_zero x :
  settled x = true → (x + S754_zero false)%num = x.
Proof. by destruct x as [[]| | |sx mx ex]. Qed.

Lemma zero_times_factor :
  (S754_zero false * SMOOTHING_FACTOR)%num = S754_zero false.
Proof. by vm_compute. Qed.

(** A display position that has reached a settled raw position is a
    fixed point of the chase, however often it is applied. *)
Lemma chase_at_rest (raw : Pos spec_float) (n : nat) :
  settled (pos_x raw) = true → settled (pos_y raw) = true →
  advance_n SMOOTHING_FACTOR raw n raw = raw.
Proof.
  intros Hx Hy. unfold advance_n. induction n as [|n IH]; [done|].
  rewrite Nat.iter_succ, IH. destruct raw as [x y]. unfold chase.
  cbn [pos_x pos_y] in *.
  by rewrite !settled_sub_diag, zero_times_factor, !settled_add_zero.
Qed.

(** X13: in binary64 a pointer at rest keeps the trail at rest, with no
    drift from rounding.  When the display position equals the raw
    position, and its coordinates are finite and not the negative zero,
    an enabled-active frame leaves the display position exactly where it
    is, and every point it pushes is that position. *)
Theorem pointer_at_rest_stays s :
  active s = true → displayPos s = rawPos s →
  settled (pos_x (rawPos s)) = true → settled (pos_y (rawPos s)) = true →
  displayPos (loop s) = rawPos s ∧
  ∀ i p, (i < ITERATIONS_PER_FRAME)%nat → points (loop s) !! i = Some p →
    position p = rawPos s.
Proof.
  intros Ha Hd Hx Hy. split.
  - rewrite loop_displayPos, Hd by done. by apply chase_at_rest.
  - intros i p Hi. rewrite loop_points_app by done.
    assert (length (created_in Frame s) = ITERATIONS_PER_FRAME) as Hlen.
    { rewrite created_in_length. cbn. unfold active in Ha. by rewrite Ha. }
    rewrite lookup_app_l by lia.
    unfold created_in. unfold active in Ha. rewrite Ha. intros Hp.
    rewrite (substeps_positions _ _ _ _ _ Hp), Hd. by apply chase_at_rest.
Qed.

(** X14: in binary64 a window size of 0 or less makes every output
    coordinate not-a-number: on two points or more [smoothPoints] still
    returns a sequence of the same length, but each of its windows is
    empty and each mean is 0 / 0. *)
Theorem nonpositive_window_gives_nan (points : list (Point spec_float))
    (W : Z) :
  (2 ≤ length points)%nat → (W ≤ 0)%Z →
  ∃ out, smoothPoints points W = Some out ∧
    length out = length points ∧
    Forall (λ q, Binary64.is_nan (pt_x q) = true ∧
                 Binary64.is_nan (pt_y q) = true) out.
Proof.
  intros Hlen HW. eexists. split; [by apply smoothPoints_imap|].
  split; [by rewrite length_imap|].
  apply Forall_lookup. intros i q Hq.
  apply list_lookup_imap_Some in Hq as (p & Hp & ->).
  cbn [smoothed_point pt_x pt_y]. rewrite window_nonpositive by done.
  split; apply mean_nil_is_nan.
Qed.

End Binary64Further.

(** ** Runs of frames and what is rendered after a run *)

Section RunsFurther.

Local Open Scope Q_scope.



End RunsFurther.

Section RenderFurther.

Context {num : Type} `{Number num}.

Variable to_string : num → string.

(** X16: after every run from the mounted state, on a pointer-capable
    device with two history points or more, the path a render computes
    is a move followed by one curve per consecutive pair of history
    points, so by fewer than [MAX_POINTS] curves. *)
Theorem rendered_path_curve_count (es : list (Event num)) :
  let s := run es initial in
  isDesktop s = true → 2 ≤ length (points s) →
  ∃ first segs,
    path <$> CursorTrail to_string s
      = Some (Some (path_string to_string first segs)) ∧
    length segs = length (points s) - 1 ∧
    length segs < MAX_POINTS.
Proof.
  intros s Hd Hlen. unfold CursorTrail. rewrite Hd. cbn [negb].
  destruct (smoothPoints_total (points s) default_windowSize)
    as (smoothed & Hsmoothed & Hsl).
  destruct (lookup_lt_is_Some_2 smoothed 0) as [first Hfirst]; [lia|].
  rewrite Hsmoothed. cbn [mbind option_bind].
  rewrite (generateSmoothPath_imap to_string smoothed first) by (done || lia).
  eexists first, _. split; [done|].
  rewrite length_imap, length_take, Hsl.
  assert (length (points s) ≤ MAX_POINTS).
  { subst s. rewrite run_points by (cbn; lia). rewrite length_take. lia. }
  lia.
Qed.

End RenderFurther.

(** ** The further properties at concrete inputs *)

Section FurtherScenarios.

Local Open Scope Z_scope.

(** Two frames and a mouse move on the disabled component. *)
Lemma inactive_component_is_frozen_witness :
  let s := run [Click] mounted in
  let es := [Frame; MouseMove (num_of_Z 5) (num_of_Z 7); Frame] in
  active s = false ∧ forallb ignored_when_inactive es = true ∧ run es s = s.
Proof.
  cbn zeta. split; [reflexivity|]. split; [reflexivity|].
  apply (inactive_component_is_frozen
           [Frame; MouseMove (num_of_Z 5) (num_of_Z 7); Frame]
           (run [Click] mounted)); reflexivity.
Defined.

(** Off and on again after the first frame. *)
Lemma toggle_round_trip_witness :
  let s := run [Frame] mounted in
  isEnabled s = true ∧
  run (Click :: [Frame; MouseMove (num_of_Z 5) (num_of_Z 7)] ++ [Click]) s = s.
Proof.
  cbn zeta. split; [reflexivity|].
  apply (toggle_round_trip [Frame; MouseMove (num_of_Z 5) (num_of_Z 7)]
           (run [Frame] mounted)); reflexivity.
Defined.

(** The first frame of the mounted component. *)
Lemma frame_slides_history_witness :
  active mounted = true ∧
  ∃ new, length new = ITERATIONS_PER_FRAME ∧
    points (loop mounted) =
    new ++ take (MAX_POINTS - ITERATIONS_PER_FRAME) (points mounted).
Proof.
  split; [reflexivity|]. apply (frame_slides_history mounted). reflexivity.
Defined.

(** The newest point after the first frame. *)
Lemma newest_point_is_display_position_witness :
  points (run [Frame] mounted) !! 0%nat = Some (point_at 0 0 3) ∧
  position (point_at 0 0 3) = displayPos (run [Frame] mounted).
Proof.
  split; [vm_compute; reflexivity|].
  apply (newest_point_is_display_position [Frame] (point_at 0 0 3)).
  vm_compute; reflexivity.
Defined.

(** The newest of the four points of the first frame. *)
Lemma frame_points_are_successive_chases_witness :
  active mounted = true ∧ (0 < ITERATIONS_PER_FRAME)%nat ∧
  points (loop mounted) !! 0%nat = Some (point_at 0 0 3) ∧
  pt_id (point_at 0 0 3) = pointId mounted + 3.
Proof.
  split; [reflexivity|]. split; [unfold ITERATIONS_PER_FRAME; lia|].
  split; [vm_compute; reflexivity|].
  apply (frame_points_are_successive_chases mounted 0 (point_at 0 0 3));
    [reflexivity | unfold ITERATIONS_PER_FRAME; lia | vm_compute; reflexivity].
Defined.

(** Three points at the origin: one interior join. *)
Lemma tangents_agree_at_joins_witness :
  let pts := [point_at 0 0 2; point_at 0 0 1; point_at 0 0 0] in
  pts !! 0%nat = Some (point_at 0 0 2) ∧
  pts !! 1%nat = Some (point_at 0 0 1) ∧
  pts !! 2%nat = Some (point_at 0 0 0) ∧
  ∃ first segs c_in c_out,
    pts !! 0%nat = Some first ∧
    generateSmoothPath zero_string pts
      = Some (path_string zero_string first segs) ∧
    segs !! 0%nat = Some c_in ∧ segs !! 1%nat = Some c_out.
Proof.
  cbn zeta. split; [reflexivity|]. split; [reflexivity|].
  split; [reflexivity|].
  destruct (tangents_agree_at_joins zero_string
              [point_at 0 0 2; point_at 0 0 1; point_at 0 0 0] 0
              (point_at 0 0 2) (point_at 0 0 1) (point_at 0 0 0))
    as (first & segs & c_in & c_out & Hfirst & Hpath & Hin & Hout & _);
    [reflexivity|reflexivity|reflexivity|].
  exists first, segs, c_in, c_out.
  split; [exact Hfirst|]. split; [exact Hpath|]. split; [exact Hin|exact Hout].
Defined.

(** Three points under the default window size. *)
Lemma smoothPoints_running_mean_witness :
  let points := [point_at 10 0 2; point_at 20 0 1; point_at 30 0 0] in
  (2 ≤ length points)%nat ∧ Z.of_nat (length points) ≤ default_windowSize ∧
  ∃ out, smoothPoints points default_windowSize = Some out.
Proof.
  cbn zeta. split; [cbn; lia|]. split; [cbn; unfold default_windowSize; lia|].
  destruct (smoothPoints_running_mean
              [point_at 10 0 2; point_at 20 0 1; point_at 30 0 0]
              default_windowSize) as (out & Hout & _);
    [cbn; lia | cbn; unfold default_windowSize; lia |].
  exists out. exact Hout.
Defined.


(** The mounted component before any input: the pointer rests at the
    origin. *)
Lemma pointer_at_rest_stays_witness :
  active mounted = true ∧ displayPos mounted = rawPos mounted ∧
  settled (pos_x (rawPos mounted)) = true ∧
  settled (pos_y (rawPos mounted)) = true ∧
  displayPos (loop mounted) = rawPos mounted.
Proof.
  split; [reflexivity|]. split; [reflexivity|]. split; [reflexivity|].
  split; [reflexivity|].
  apply (pointer_at_rest_stays mounted); reflexivity.
Defined.

(** Two points and a window size of 0. *)
Lemma nonpositive_window_gives_nan_witness :
  (2 ≤ length [point_at 10 0 1; point_at 20 0 0])%nat ∧ 0 ≤ 0 ∧
  ∃ out, smoothPoints [point_at 10 0 1; point_at 20 0 0] 0 = Some out ∧
    Forall (λ q, Binary64.is_nan (pt_x q) = true ∧
                 Binary64.is_nan (pt_y q) = true) out.
Proof.
  split; [cbn; lia|]. split; [lia|].
  destruct (nonpositive_window_gives_nan
              [point_at 10 0 1; point_at 20 0 0] 0)
    as (out & Hout & _ & Hnan); [cbn; lia | lia |].
  exists out. split; [exact Hout|exact Hnan].
Defined.


(** The render after the first frame. *)
Lemma rendered_path_curve_count_witness :
  isDesktop (run [Frame] mounted) = true ∧
  (2 ≤ length (points (run [Frame] mounted)))%nat ∧
  ∃ first segs,
    path <$> CursorTrail zero_string (run [Frame] mounted)
      = Some (Some (path_string zero_string first segs)) ∧
    length segs = 3%nat.
Proof.
  split; [reflexivity|]. split; [vm_compute; lia|].
  destruct (rendered_path_curve_count zero_string [Frame])
    as (first & segs & Hpath & Hlen & _); [reflexivity | vm_compute; lia |].
  exists first, segs. split; [exact Hpath|]. rewrite Hlen. reflexivity.
Defined.

End FurtherScenarios.
